(** * Email routing engine of the film-equipment rental service

    A shallow embedding of [MAIN_1.py]: the intent classifier, the name
    extractor, the four response generators, the router [handle_email] and
    the catalog seeding [add_sample_data], with the properties of the
    routing contract proved about them.

    Modelling conventions.
    - Python [str] values are [string]s whose characters are the code points
      below 256; [strip] and [lower] follow [str.strip] and [str.lower] on
      that range.
    - A Python call either returns a value or raises an [Exception]:
      [result].  [BaseException]s that are not [Exception]s (interrupts) are
      outside the model.
    - The outside world is explicit: the rows of the [equipment] table and
      the traces of the calls made to the Completion Service, to the catalog
      and to the retriever are threaded through every function ([World]).
    - The external collaborators (the chat model, the retriever, the
      library's prompt formatting) are the fields of [Services]; every
      theorem holds for all of them.  Logging is not modelled. *)

From Stdlib Require Import String Ascii List Bool ZArith NArith Lia.
From Stdlib Require Import SpecFloat DecimalString.
Import ListNotations.

Local Open Scope list_scope.
Local Open Scope string_scope.


(* ================================================================== *)
(** ** Python strings *)

Module PyStr.

Definition code (c : ascii) : N := N_of_ascii c.

(** [str.isspace] on one character: TAB..CR, FS..US, SPACE, NEL, NBSP. *)
Definition isspace (c : ascii) : bool :=
  let n := code c in
  ((9 <=? n) && (n <=? 13) || (28 <=? n) && (n <=? 32)
   || (n =? 133) || (n =? 160))%N.

(** [str.lower] on one character: A..Z and the upper-case letters of the
    Latin-1 supplement (all of 192..222 but the multiplication sign). *)
Definition lower_char (c : ascii) : ascii :=
  let n := code c in
  if ((65 <=? n) && (n <=? 90)
      || (192 <=? n) && (n <=? 222) && negb (n =? 215))%N
  then ascii_of_N (n + 32) else c.

Fixpoint lower (s : string) : string :=
  match s with
  | EmptyString => EmptyString
  | String c s' => String (lower_char c) (lower s')
  end.

Fixpoint lstrip (s : string) : string :=
  match s with
  | EmptyString => EmptyString
  | String c s' => if isspace c then lstrip s' else s
  end.

(** Drops the trailing white space: a character is kept when something
    is kept after it or when it is not white space itself. *)
Fixpoint rstrip (s : string) : string :=
  match s with
  | EmptyString => EmptyString
  | String c s' =>
      match rstrip s' with
      | EmptyString => if isspace c then EmptyString else String c EmptyString
      | r => String c r
      end
  end.

Definition strip (s : string) : string := rstrip (lstrip s).

(** Truth value of a [str]: only the empty string is false. *)
Definition truthy (s : string) : bool :=
  match s with EmptyString => false | _ => true end.

(** [sep.join(parts)]. *)
Fixpoint join (sep : string) (parts : list string) : string :=
  match parts with
  | [] => ""
  | [p] => p
  | p :: rest => p ++ sep ++ join sep rest
  end.

(** [sub in s]. *)
Fixpoint contains (sub s : string) : bool :=
  if prefix sub s then true
  else match s with
       | EmptyString => false
       | String _ s' => contains sub s'
       end.

Definition nl : string := String "010"%char EmptyString.

End PyStr.

(* ================================================================== *)
(** ** The pattern search of [re.search] over an alternation of literals *)

Module Re.

(** The first alternative, in the order of the pattern, that matches at
    the start of [s]. *)
Definition match_here (alts : list string) (s : string) : option string :=
  find (fun p => prefix p s) alts.

(** [re.search(r'(a1|a2|...)', s)] followed by [group(1)]: the positions
    are tried from left to right, the alternatives in order at each. *)
Fixpoint search (alts : list string) (s : string) : option string :=
  match match_here alts s with
  | Some p => Some p
  | None =>
      match s with
      | EmptyString => None
      | String _ s' => search alts s'
      end
  end.

End Re.

(* ================================================================== *)
(** ** Exceptions, the world and the computation monad *)

Inductive exn : Type := Exception (msg : string).

Inductive result (A : Type) : Type :=
| Ok (a : A)
| Raise (e : exn).

Arguments Ok {A} a.
Arguments Raise {A} e.

Inductive role : Type := System | Human.

(** A formatted chat prompt: the messages sent to the model, in order. *)
Definition Prompt : Type := list (role * string).

(** A row of the [equipment] table, and an [Equipment] object: [id] is
    [None] until the object is flushed; [available] is a nullable
    Boolean column. *)
Record Equipment : Type := mkEquipment {
  id : option Z;
  name : string;
  category : string;
  price : spec_float;
  available : option bool
}.

Record World : Type := mkWorld {
  table : list Equipment;       (* rows of [equipment], in rowid order *)
  chat_calls : list Prompt;     (* Completion Service calls, oldest first *)
  db_queries : list string;     (* names looked up in the catalog *)
  retrievals : list string      (* queries sent to the retriever *)
}.

Definition M (A : Type) : Type := World -> result A * World.

Definition ret {A} (a : A) : M A := fun w => (Ok a, w).

Definition bind {A B} (m : M A) (k : A -> M B) : M B :=
  fun w =>
    match m w with
    | (Ok a, w') => k a w'
    | (Raise e, w') => (Raise e, w')
    end.

(** [try: body except Exception as e: handler(e)]. *)
Definition try_except {A} (body : M A) (handler : exn -> M A) : M A :=
  fun w =>
    match body w with
    | (Ok a, w') => (Ok a, w')
    | (Raise e, w') => handler e w'
    end.

Definition lift {A} (r : result A) : M A := fun w => (r, w).

Declare Scope py_scope.
Delimit Scope py_scope with py.
Notation "x <- m ;; k" := (bind m (fun x => k))
  (at level 61, m at next level, right associativity) : py_scope.
Notation "m ;;; k" := (bind m (fun _ => k))
  (at level 61, right associativity) : py_scope.
Local Open Scope py_scope.

Definition set_table (t : list Equipment) (w : World) : World :=
  mkWorld t (chat_calls w) (db_queries w) (retrievals w).

(** [with session_scope() as session: body]: commit when the body
    returns, roll the table back and re-raise when it raises. *)
Definition session_scope {A} (body : M A) : M A :=
  fun w =>
    match body w with
    | (Ok a, w') => (Ok a, w')
    | (Raise e, w') => (Raise e, set_table (table w) w')
    end.

(* ================================================================== *)
(** ** The external collaborators *)

Record Services : Type := mkServices {
  (** The chat model: its answer to a prompt, given the calls made before. *)
  complete : list Prompt -> Prompt -> result string;
  (** The retriever of the FAQ vector store: the chunks for a query. *)
  search_index : string -> result (list string);
  (** The library's rendering of an f-string template that holds
      replacement fields, with [email_content] bound to the second
      argument; it may raise (unknown field, unbalanced brace). *)
  format_fields : string -> string -> result string;
  (** The library's question-answering prompt of the "stuff" chain, from
      the context and the question. *)
  stuff_prompt : string -> string -> Prompt;
  (** [str] of a float that is not an integer below 2^53: sign, mantissa,
      exponent of the value [m * 2^e]. *)
  repr_float : bool -> positive -> Z -> string
}.

(* ================================================================== *)
(** ** Floats as Python prints them *)

Module PyFloat.

(** The float of an integer literal such as [50.00]: binary64. *)
Definition of_Z (z : Z) : spec_float := binary_normalize 53 1024 z 0 false.

(** The integer a finite float [m * 2^e] is equal to, if any. *)
Definition integral (m : positive) (e : Z) : option Z :=
  if (0 <=? e)%Z then Some (Z.pos m * 2 ^ e)%Z
  else if (Z.pos m mod 2 ^ (- e) =? 0)%Z then Some (Z.pos m / 2 ^ (- e))%Z
  else None.

Definition digits (z : Z) : string :=
  NilZero.string_of_uint (N.to_uint (Z.to_N z)).

Definition sign_str (s : bool) : string := if s then "-" else "".

(** [str(x)]: an integer below 2^53 prints as its digits followed by
    [.0]; every other finite value is left to [repr_float]. *)
Definition str (svc : Services) (x : spec_float) : string :=
  match x with
  | S754_zero s => sign_str s ++ "0.0"
  | S754_infinity s => sign_str s ++ "inf"
  | S754_nan => "nan"
  | S754_finite s m e =>
      match integral m e with
      | Some z =>
          if (z <? 2 ^ 53)%Z then sign_str s ++ digits z ++ ".0"
          else repr_float svc s m e
      | None => repr_float svc s m e
      end
  end.

End PyFloat.

(* ================================================================== *)
(** ** The program *)

Import PyStr.

Section Program.

Variable svc : Services.

(** [chain.invoke] on an already formatted prompt: one call to the
    Completion Service, recorded whether it returns or raises. *)
Definition chat_invoke (p : Prompt) : M string :=
  fun w =>
    (complete svc (chat_calls w) p,
     mkWorld (table w) (chat_calls w ++ [p])%list (db_queries w) (retrievals w)).

(** [vectorstore.as_retriever()] asked for the chunks of a query. *)
Definition retrieve (q : string) : M (list string) :=
  fun w =>
    (search_index svc q,
     mkWorld (table w) (chat_calls w) (db_queries w) (retrievals w ++ [q])%list).

(** [session.query(Equipment).filter_by(name=n).first()]: the first row
    whose name is equal to [n], byte for byte. *)
Definition first_by_name (n : string) (rows : list Equipment)
  : option Equipment :=
  find (fun r => String.eqb (name r) n) rows.

Definition query_first (n : string) : M (option Equipment) :=
  fun w =>
    (Ok (first_by_name n (table w)),
     mkWorld (table w) (chat_calls w) (db_queries w ++ [n])%list (retrievals w)).

(** The rowid of the next inserted row: one more than the largest. *)
Definition next_id (rows : list Equipment) : Z :=
  fold_right
    (fun r acc => match id r with Some i => Z.max (i + 1) acc | None => acc end)
    1%Z rows.

(** [session.add(e)], flushed before the next query. *)
Definition session_add (e : Equipment) : M unit :=
  fun w =>
    let row := mkEquipment (Some (next_id (table w))) (name e) (category e)
                           (price e) (available e) in
    (Ok tt, set_table (table w ++ [row])%list w).

(** *** classify_email *)

Definition categories : list string :=
  ["positive_review"; "negative_review"; "price_availability_inquiry";
   "general_inquiry"].

Definition classify_system : string :=
  "You are an AI assistant that classifies emails into four categories: 'positive_review', 'negative_review', 'price_availability_inquiry', or 'general_inquiry'. Respond with ONLY the category name, nothing else.".

(** The human turn is an f-string: the email is spliced into the text of
    the template itself. *)
Definition classify_human_template (email_content : string) : string :=
  nl ++ "    Classify the following email into one of these categories: 'positive_review', 'negative_review', 'price_availability_inquiry', or 'general_inquiry':"
     ++ nl ++ nl ++ "    " ++ email_content ++ nl ++ nl
     ++ "    Classification:".

Definition has_brace (s : string) : bool :=
  contains "{" s || contains "}" s.

(** Formatting a template with [email_content] bound: a text without
    braces is its own rendering. *)
Definition render_template (template email_content : string)
  : result string :=
  if has_brace template then format_fields svc template email_content
  else Ok template.

(** [classification_prompt | chat], invoked. *)
Definition classification_chain (email_content : string) : M string :=
  human <- lift (render_template (classify_human_template email_content)
                                 email_content);;
  chat_invoke [(System, classify_system); (Human, human)].

Definition classify_email (email_content : string) : M string :=
  try_except
    (content <- classification_chain email_content;;
     let raw_classification := lower (strip content) in
     match Re.search categories raw_classification with
     | Some classified_category => ret classified_category
     | None => ret "error"
     end)
    (fun _ => ret "error").

(** *** extract_equipment_name *)

Definition extraction_prompt (email_content : string) : Prompt :=
  [(System, "You are an AI assistant that extracts equipment names from emails.");
   (Human, "Extract the name of the film equipment mentioned in the following email:"
             ++ nl ++ nl ++ email_content ++ nl ++ nl ++ "Equipment name:")].

Definition extract_equipment_name (email_content : string)
  : M (option string) :=
  try_except
    (content <- chat_invoke (extraction_prompt email_content);;
     ret (Some (strip content)))
    (fun _ => ret None).

(** *** handle_price_availability_inquiry *)

Definition truthy_bool (b : option bool) : bool :=
  match b with Some true => true | _ => false end.

Definition price_msg (equipment : Equipment) : string :=
  let availability :=
    if truthy_bool (available equipment) then "available"
    else "not available" in
  "The " ++ name equipment ++ " is " ++ availability ++ " for rent at $"
    ++ PyFloat.str svc (price equipment) ++ " per day.".

Definition no_match_msg (equipment_name : string) : string :=
  "We're sorry, but we don't have information about " ++ equipment_name
    ++ " in our database. Please contact our customer service for more details.".

Definition fallback_msg : string :=
  "Thank you for your inquiry. We couldn't find specific information about the equipment you mentioned. Please contact our customer service for further assistance.".

Definition handle_price_availability_inquiry (email_content : string)
  : M string :=
  equipment_name <- extract_equipment_name email_content;;
  match equipment_name with
  | Some n =>
      if truthy n then
        session_scope
          (equipment <- query_first n;;
           match equipment with
           | Some e => ret (price_msg e)
           | None => ret (no_match_msg n)
           end)
      else ret fallback_msg
  | None => ret fallback_msg
  end.

(** *** handle_general_inquiry *)

(** Modelled from the spec: the [RetrievalQA] chain of the library, of
    type "stuff" (section 4.4): the retrieved chunks are concatenated
    as the context, one call to the Completion Service combines the
    context with the question, and its text is returned unmodified. *)
Definition qa_chain_run (question : string) : M string :=
  chunks <- retrieve question;;
  chat_invoke (stuff_prompt svc (join (nl ++ nl) chunks) question).

Definition handle_general_inquiry (email_content : string) : M string :=
  qa_chain_run email_content.

(** *** handle_positive_review *)

Definition positive_prompt (email_content : string) : Prompt :=
  [(System, "You are responding to a positive review about a film equipment rental service. Thank the customer and encourage them to share their experience on social media.");
   (Human, "Positive review: " ++ email_content ++ nl ++ nl ++ "Response:")].

Definition handle_positive_review (email_content : string) : M string :=
  content <- chat_invoke (positive_prompt email_content);;
  ret (strip content).

(** *** handle_email *)

(** [ChatPromptTemplate.from_template]: a single human turn. *)
Definition negative_prompt (email_content : string) : Prompt :=
  [(Human, "You are responding to a negative review about a film equipment rental service. Apologize for the inconvenience, offer a solution, and mention that a customer service representative will call them. Also, offer a gift voucher for their next rental. Review: "
             ++ email_content)].

Definition forward_msg : string :=
  "This email requires further evaluation and has been forwarded to our customer service team. They will contact you shortly.".

Definition error_msg : string :=
  "We encountered an error processing your email. A customer service representative will contact you shortly.".

Definition handle_email (email_content : string) : M (string * string) :=
  try_except
    (category <- classify_email email_content;;
     if category =? "positive_review" then
       text <- handle_positive_review email_content;;
       ret (category, text)
     else if category =? "negative_review" then
       content <- chat_invoke (negative_prompt email_content);;
       ret (category, content)
     else if category =? "price_availability_inquiry" then
       text <- handle_price_availability_inquiry email_content;;
       ret (category, text)
     else if category =? "general_inquiry" then
       text <- handle_general_inquiry email_content;;
       ret (category, text)
     else ret ("forward_to_customer_service", forward_msg))
    (fun _ => ret ("error", error_msg)).

(** *** add_sample_data *)

Definition sample_equipment : list Equipment :=
  [mkEquipment None "RED DSMC 2" "Cameras" (PyFloat.of_Z 850) (Some true);
   mkEquipment None "Canon EF 24-70mm" "Lenses" (PyFloat.of_Z 50) (Some true);
   mkEquipment None "DJI Ronin-S" "Stabilizers" (PyFloat.of_Z 75) (Some false);
   mkEquipment None "ARRI SkyPanel S60-C" "Lighting" (PyFloat.of_Z 200) (Some true)].

Fixpoint for_each {A} (xs : list A) (body : A -> M unit) : M unit :=
  match xs with
  | [] => ret tt
  | x :: rest => body x;;; for_each rest body
  end.

Definition seed (equipments : list Equipment) : M unit :=
  session_scope
    (for_each equipments
       (fun equipment =>
          existing <- query_first (name equipment);;
          match existing with
          | Some _ => ret tt
          | None => session_add equipment
          end)).

Definition add_sample_data : M unit := seed sample_equipment.

End Program.

(* ================================================================== *)
(** ** Vocabulary of the statements and concrete services *)

(** [tok] occurs in [s] with [n] characters before it. *)
Definition occurs_at (tok s : string) (n : nat) : Prop :=
  exists pre post, s = pre ++ tok ++ post /\ String.length pre = n.

(** The first category token of a response: a category that occurs in it
    such that no category occurs further left. *)
Definition first_category_token (s tok : string) : Prop :=
  In tok categories /\
  exists n, occurs_at tok s n /\
    forall tok' n', In tok' categories -> occurs_at tok' s n' -> n <= n'.

Definition no_category_token (s : string) : Prop :=
  forall tok n, In tok categories -> ~ occurs_at tok s n.

(** The handler the router dispatches a category to, if any. *)
Definition handler_of (svc : Services) (c : string)
  : option (string -> M string) :=
  if c =? "positive_review" then Some (handle_positive_review svc)
  else if c =? "negative_review"
       then Some (fun email => chat_invoke svc (negative_prompt email))
  else if c =? "price_availability_inquiry"
       then Some (handle_price_availability_inquiry svc)
  else if c =? "general_inquiry" then Some (handle_general_inquiry svc)
  else None.

(** The categories a routing result may carry. *)
Definition outcome_categories : list string :=
  (categories ++ ["forward_to_customer_service"; "error"])%list.

(** Number of rows of a table that carry a name. *)
Definition count_name (n : string) (rows : list Equipment) : nat :=
  count_occ string_dec (map name rows) n.

Definition completion_error : exn := Exception "CompletionError".

(** A Completion Service that gives its scripted answers in order and
    fails once the script is exhausted; a retriever that returns the
    same chunks for every query. *)
Definition scripted (answers : list (result string))
                    (chunks : result (list string)) : Services :=
  mkServices
    (fun history _ => nth (List.length history) answers (Raise completion_error))
    (fun _ => chunks)
    (fun _ _ => Raise (Exception "KeyError"))
    (fun context question =>
       [(System, "Use the following pieces of context to answer the user's question. " ++ context);
        (Human, question)])
    (fun _ _ _ => "nan").

Definition empty_world : World := mkWorld [] [] [] [].

(** What the classifier answers, from what its chain produced. *)
Definition classification_of (r : result string) : string :=
  match r with
  | Ok content =>
      match Re.search categories (lower (strip content)) with
      | Some tok => tok
      | None => "error"
      end
  | Raise _ => "error"
  end.

(** The rule of the specification: one of the four categories whenever
    classification succeeds, [forward_to_customer_service] or [error]
    otherwise. *)
Definition category_rule (svc : Services) (email : string) (w : World)
  : Prop :=
  exists cat text,
    fst (handle_email svc email w) = Ok (cat, text) /\
    match fst (classify_email svc email w) with
    | Ok c =>
        (In c categories -> In cat categories) /\
        (~ In c categories ->
         cat = "forward_to_customer_service" \/ cat = "error")
    | Raise _ => cat = "forward_to_customer_service" \/ cat = "error"
    end.

(** The classifier's call returns [positive_review]; the call of the
    positive-review handler fails. *)
Definition svc_handler_fails : Services :=
  scripted [Ok "positive_review"] (Ok []).

(** The rule that C3 states: a failure of the classification call gives
    the category [error]. *)
Definition classifier_failure_rule
           (svc : Services) (email : string) (w : World) : Prop :=
  forall e, fst (classification_chain svc email w) = Raise e ->
  exists text, fst (handle_email svc email w) = Ok ("error", text).

(** Every call to the Completion Service fails. *)
Definition svc_down : Services := scripted [] (Ok []).

(** The reply of the handler, from the extracted name and the table. *)
Definition price_reply (svc : Services) (o : option string)
                       (rows : list Equipment) : string :=
  match o with
  | Some n =>
      if truthy n then
        match first_by_name n rows with
        | Some e => price_msg svc e
        | None => no_match_msg n
        end
      else fallback_msg
  | None => fallback_msg
  end.

(** The names the handler looks up: the extracted name, when it is a
    non-empty string. *)
Definition looked_up (o : option string) : list string :=
  match o with
  | Some n => if truthy n then [n] else []
  | None => []
  end.

(** A catalog that holds the record of the scenario. *)
Definition canon_lens : Equipment :=
  mkEquipment (Some 2%Z) "Canon EF 24-70mm" "Lenses" (PyFloat.of_Z 50)
              (Some true).

Definition svc_canon : Services :=
  scripted [Ok (" Canon EF 24-70mm" ++ nl)] (Ok []).

Definition email_canon : string :=
  "Is the Canon EF 24-70mm lens available for rent?".

(** The sample catalog: the table after seeding an empty database. *)
Definition sample_table : list Equipment :=
  table (snd (add_sample_data empty_world)).

Definition svc_red : Services := scripted [Ok "RED DSMC2"] (Ok []).

Definition email_red : string := "What is the price of the RED DSMC2?".

(** The model answers with white space only: the trimmed name is empty. *)
Definition svc_blank : Services := scripted [Ok ("   " ++ nl)] (Ok []).

Definition email_negative : string :=
  "I'm extremely disappointed with the DJI Ronin-S. It was old and didn't work properly.".

Definition reply_with_blanks : string :=
  " We apologise for the inconvenience." ++ nl.

Definition svc_negative : Services :=
  scripted [Ok "negative_review"; Ok reply_with_blanks] (Ok []).

Definition svc_positive : Services :=
  scripted [Ok "positive_review"; Ok reply_with_blanks] (Ok []).

(** The rule of the specification for a retrieval without chunks: the
    handler returns a non-empty text. *)
Definition zero_chunks_rule (svc : Services) (email : string) (w : World)
  : Prop :=
  search_index svc email = Ok [] ->
  exists text,
    fst (handle_general_inquiry svc email w) = Ok text /\ text <> "".

Definition email_general : string :=
  "I'm looking for information about underwater housing for cameras.".

(** The retriever finds nothing and the model answers the empty text. *)
Definition svc_mute : Services := scripted [Ok ""] (Ok []).

Definition svc_answers : Services :=
  scripted [Ok "I don't know."] (Ok []).

(** One turn of the seeding loop, on the table alone. *)
Definition insert_if_absent (e : Equipment) (rows : list Equipment)
  : list Equipment :=
  match first_by_name (name e) rows with
  | Some _ => rows
  | None =>
      (rows ++ [mkEquipment (Some (next_id rows)) (name e) (category e)
                            (price e) (available e)])%list
  end.

Definition seed_rows (equipments rows : list Equipment) : list Equipment :=
  fold_left (fun t e => insert_if_absent e t) equipments rows.

(** *** main *)




(** *** Vocabulary of the further properties *)

(** The first character of [s] is white space. *)
Definition starts_with_space (s : string) : bool :=
  match s with
  | EmptyString => false
  | String c _ => isspace c
  end.

(** The last character of [s] is white space. *)
Fixpoint ends_with_space (s : string) : bool :=
  match s with
  | EmptyString => false
  | String c EmptyString => isspace c
  | String _ s' => ends_with_space s'
  end.

(** [w'] is [w] with the same catalog and with the calls [calls], the
    catalog queries [qs] and the retrievals [rs] added to its traces. *)
Definition effect (w w' : World) (calls : list Prompt) (qs rs : list string)
  : Prop :=
  table w' = table w /\
  chat_calls w' = (chat_calls w ++ calls)%list /\
  db_queries w' = (db_queries w ++ qs)%list /\
  retrievals w' = (retrievals w ++ rs)%list.

(** The prompt of the classifier for an email without braces. *)
Definition classification_prompt (email_content : string) : Prompt :=
  [(System, classify_system);
   (Human, classify_human_template email_content)].

Definition svc_shouting : Services :=
  scripted [Ok "POSITIVE_REVIEW"; Ok "Thank you!"] (Ok []).

Definition svc_quiet : Services :=
  scripted [Ok "positive_review"; Ok "Thank you!"] (Ok []).

Definition svc_price : Services :=
  scripted [Ok "price_availability_inquiry"; Ok "DJI Ronin-S"] (Ok []).

(* ================================================================== *)
(** ** Strings *)

Lemma prefix_iff (p s : string) :
  prefix p s = true <-> exists post, s = p ++ post.
Proof.
  revert p; induction s as [|d s IH]; intros [|c p]; simpl.
  - split; [intros _; now exists "" | reflexivity].
  - split; [discriminate | intros [post H]; discriminate].
  - split; [intros _; now exists (String d s) | reflexivity].
  - destruct (ascii_dec c d) as [->|Hcd].
    + rewrite IH. split; intros [post H]; exists post.
      * now rewrite H.
      * now injection H.
    + split; [discriminate|].
      intros [post H]. injection H as H1 _. congruence.
Qed.

Lemma occurs_at_0 (tok s : string) :
  occurs_at tok s 0 <-> prefix tok s = true.
Proof.
  rewrite prefix_iff. split.
  - intros (pre & post & -> & Hlen).
    destruct pre; [|discriminate]. now exists post.
  - intros [post ->]. now exists "", post.
Qed.

Lemma occurs_at_S (tok : string) (c : ascii) (s : string) (n : nat) :
  occurs_at tok (String c s) (S n) <-> occurs_at tok s n.
Proof.
  split.
  - intros (pre & post & H & Hlen).
    destruct pre as [|d pre]; [discriminate|].
    simpl in H, Hlen. injection H as _ H. injection Hlen as Hlen.
    now exists pre, post.
  - intros (pre & post & -> & Hlen).
    exists (String c pre), post. simpl. now rewrite Hlen.
Qed.

Lemma occurs_at_empty (tok : string) (n : nat) :
  occurs_at tok "" n -> n = 0.
Proof.
  intros (pre & post & H & Hlen).
  destruct pre; [now simpl in Hlen | discriminate].
Qed.

Lemma contains_unfold (sub s : string) :
  contains sub s =
  if prefix sub s then true
  else match s with
       | EmptyString => false
       | String _ s' => contains sub s'
       end.
Proof. destruct s; reflexivity. Qed.

Lemma contains_iff (sub s : string) :
  contains sub s = true <-> exists n, occurs_at sub s n.
Proof.
  induction s as [|c s IH]; rewrite contains_unfold.
  - destruct (prefix sub "") eqn:Hp.
    + split; [intros _|reflexivity]. exists 0. now apply occurs_at_0.
    + split; [discriminate|]. intros [n H].
      assert (n = 0) by now apply occurs_at_empty in H.
      subst. apply occurs_at_0 in H. congruence.
  - destruct (prefix sub (String c s)) eqn:Hp.
    + split; [intros _|reflexivity]. exists 0. now apply occurs_at_0.
    + rewrite IH. split; intros [n H].
      * exists (S n). now apply occurs_at_S.
      * destruct n as [|n].
        -- apply occurs_at_0 in H. congruence.
        -- exists n. now apply occurs_at_S in H.
Qed.

Lemma contains_after (sub pre s : string) :
  contains sub s = true -> contains sub (pre ++ s) = true.
Proof.
  intros H. induction pre as [|c pre IH]; [assumption|].
  simpl append. rewrite contains_unfold.
  now destruct (prefix sub (String c (pre ++ s))).
Qed.

(* ================================================================== *)
(** ** The pattern search *)

Lemma match_here_Some (alts : list string) (s p : string) :
  Re.match_here alts s = Some p -> In p alts /\ occurs_at p s 0.
Proof.
  unfold Re.match_here. intros H. apply find_some in H as [Hin Hp].
  split; [assumption | now apply occurs_at_0].
Qed.

Lemma match_here_None (alts : list string) (s p : string) :
  Re.match_here alts s = None -> In p alts -> ~ occurs_at p s 0.
Proof.
  unfold Re.match_here. intros H Hin Hocc.
  apply occurs_at_0 in Hocc.
  pose proof (find_none _ _ H p Hin) as Hn. simpl in Hn. congruence.
Qed.

(** A match found by the search is a leftmost occurrence of an
    alternative. *)
Lemma search_unfold (alts : list string) (s : string) :
  Re.search alts s =
  match Re.match_here alts s with
  | Some p => Some p
  | None =>
      match s with
      | EmptyString => None
      | String _ s' => Re.search alts s'
      end
  end.
Proof. destruct s; reflexivity. Qed.

Lemma search_Some (alts : list string) (s p : string) :
  Re.search alts s = Some p ->
  In p alts /\
  exists n, occurs_at p s n /\
    forall q m, In q alts -> occurs_at q s m -> n <= m.
Proof.
  induction s as [|c s IH]; rewrite search_unfold; intros H.
  - destruct (Re.match_here alts "") eqn:Hm; [|discriminate].
    injection H as ->. apply match_here_Some in Hm as [Hin Hocc].
    split; [assumption|]. exists 0. split; [assumption | intros; lia].
  - destruct (Re.match_here alts (String c s)) eqn:Hm.
    + injection H as ->. apply match_here_Some in Hm as [Hin Hocc].
      split; [assumption|]. exists 0. split; [assumption | intros; lia].
    + destruct (IH H) as (Hin & n & Hocc & Hmin).
      split; [assumption|]. exists (S n). split.
      * now apply occurs_at_S.
      * intros q m Hq Hqm. destruct m as [|m].
        -- now apply (match_here_None _ _ _ Hm Hq) in Hqm.
        -- apply occurs_at_S in Hqm. specialize (Hmin q m Hq Hqm). lia.
Qed.

(** The search fails only when no alternative occurs anywhere. *)
Lemma search_None (alts : list string) (s : string) :
  Re.search alts s = None ->
  forall q m, In q alts -> ~ occurs_at q s m.
Proof.
  induction s as [|c s IH]; rewrite search_unfold; intros H q m Hq Hocc.
  - destruct (Re.match_here alts "") eqn:Hm; [discriminate|].
    assert (m = 0) by now apply occurs_at_empty in Hocc. subst.
    now apply (match_here_None _ _ _ Hm Hq) in Hocc.
  - destruct (Re.match_here alts (String c s)) eqn:Hm; [discriminate|].
    destruct m as [|m].
    + now apply (match_here_None _ _ _ Hm Hq) in Hocc.
    + apply occurs_at_S in Hocc. now apply (IH H q m Hq).
Qed.

(** Two categories that occur at the same place are the same one: no
    category is the beginning of another. *)
Lemma categories_same_place (s p q : string) (n : nat) :
  In p categories -> In q categories ->
  occurs_at p s n -> occurs_at q s n -> p = q.
Proof.
  intros Hp Hq (pre1 & post1 & H1 & L1) (pre2 & post2 & H2 & L2).
  assert (Heq : p ++ post1 = q ++ post2).
  { subst s. clear Hp Hq. revert pre2 n L1 L2 H2.
    induction pre1 as [|c pre1 IH]; intros pre2 n L1 L2 H2.
    - simpl in L1. subst n. destruct pre2; [assumption | discriminate].
    - destruct pre2 as [|d pre2]; [simpl in *; congruence|].
      simpl in *. injection H2 as _ H2. destruct n; [discriminate|].
      injection L1 as L1. injection L2 as L2. eapply IH; eauto. }
  clear H1 H2. unfold categories in *. simpl in Hp, Hq.
  repeat match goal with
         | H : _ \/ _ |- _ => destruct H as [H|H]
         | H : False |- _ => destruct H
         end; subst p q; try reflexivity; simpl in Heq; congruence.
Qed.

Lemma first_category_token_unique (s p q : string) :
  first_category_token s p -> first_category_token s q -> p = q.
Proof.
  intros (Hp & n & Hn & Hnmin) (Hq & m & Hm & Hmmin).
  assert (n = m).
  { specialize (Hnmin q m Hq Hm). specialize (Hmmin p n Hp Hn). lia. }
  subst m. eapply categories_same_place; eauto.
Qed.

Lemma error_not_category : ~ In "error" categories.
Proof.
  unfold categories. simpl. intuition discriminate.
Qed.

(* ================================================================== *)
(** ** The classifier *)

Lemma classify_email_run (svc : Services) (email : string) (w : World) :
  classify_email svc email w =
  (Ok (classification_of (fst (classification_chain svc email w))),
   snd (classification_chain svc email w)).
Proof.
  unfold classify_email, try_except, bind, ret.
  destruct (classification_chain svc email w) as [[content|e] w1]; simpl.
  - now destruct (Re.search categories (lower (strip content))).
  - reflexivity.
Qed.

Lemma classification_of_cases (r : result string) :
  In (classification_of r) categories \/ classification_of r = "error".
Proof.
  destruct r as [content|e]; simpl; [|now right].
  destruct (Re.search categories (lower (strip content))) eqn:Hs.
  - left. now apply search_Some in Hs.
  - now right.
Qed.

(** C2: [classify_email] never raises.  When the model call raises it
    answers [error]; when the call returns, it lower-cases and trims the
    text and answers the first category token that occurs in it, or
    [error] when no category occurs anywhere in it. *)
Theorem classify_email_first_token
        (svc : Services) (email : string) (w : World) :
  exists c,
    fst (classify_email svc email w) = Ok c /\
    match fst (classification_chain svc email w) with
    | Ok raw =>
        let s := lower (strip raw) in
        first_category_token s c \/ (c = "error" /\ no_category_token s)
    | Raise _ => c = "error"
    end.
Proof.
  rewrite classify_email_run. simpl.
  exists (classification_of (fst (classification_chain svc email w))).
  split; [reflexivity|].
  destruct (fst (classification_chain svc email w)) as [raw|e]; simpl;
    [|reflexivity].
  destruct (Re.search categories (lower (strip raw))) eqn:Hs.
  - left. apply search_Some in Hs as (Hin & n & Hocc & Hmin).
    split; [assumption|]. now exists n.
  - right. split; [reflexivity|]. intros tok n Hin.
    now apply (search_None _ _ Hs).
Qed.

(** The first category token is a function of the response, so the
    answer of the classifier is determined by the specification. *)
Corollary classify_email_answer_determined
          (svc : Services) (email : string) (w : World) (raw tok : string) :
  fst (classification_chain svc email w) = Ok raw ->
  first_category_token (lower (strip raw)) tok ->
  fst (classify_email svc email w) = Ok tok.
Proof.
  intros Hraw Htok. rewrite classify_email_run, Hraw. simpl. f_equal.
  destruct (Re.search categories (lower (strip raw))) eqn:Hs.
  - apply search_Some in Hs as (Hin & n & Hocc & Hmin).
    eapply first_category_token_unique; [|exact Htok].
    split; [assumption|]. now exists n.
  - destruct Htok as (Hin & n & Hocc & _).
    now destruct (search_None _ _ Hs tok n Hin).
Qed.

Example classify_tolerates_surrounding_text :
  fst (classify_email
         (scripted [Ok "  Category: Negative_Review (not positive_review).  "]
                   (Ok []))
         "The tripod was broken." empty_world)
  = Ok "negative_review".
Proof. reflexivity. Qed.

Example classify_unmatched_output_is_error :
  fst (classify_email (scripted [Ok "This looks like a complaint."] (Ok []))
         "The tripod was broken." empty_world)
  = Ok "error".
Proof. reflexivity. Qed.

Example classify_braces_in_email_is_error :
  classify_email (scripted [Ok "positive_review"] (Ok []))
                 "Loved the {lens}!" empty_world
  = (Ok "error", empty_world).
Proof. reflexivity. Qed.

(* ================================================================== *)
(** ** The router *)

Lemma handler_of_category (svc : Services) (c : string) :
  In c categories -> exists h, handler_of svc c = Some h.
Proof.
  unfold categories. simpl.
  intros [H|[H|[H|[H|[]]]]]; subst c; eexists; reflexivity.
Qed.

Lemma handler_of_error (svc : Services) : handler_of svc "error" = None.
Proof. reflexivity. Qed.

(** Decides the comparisons of string literals in the goal. *)
Ltac eval_eqb :=
  repeat match goal with
         | |- context [String.eqb ?a ?b] =>
             let v := eval vm_compute in (String.eqb a b) in
             change (String.eqb a b) with v
         end;
  cbv iota beta.

(** The router runs the classifier, then the handler of the category
    when there is one; a raising handler gives the [error] outcome. *)
Lemma handle_email_run (svc : Services) (email : string) (w : World) :
  let c := classification_of (fst (classification_chain svc email w)) in
  let w1 := snd (classification_chain svc email w) in
  fst (handle_email svc email w) =
  match handler_of svc c with
  | Some handler =>
      match fst (handler email w1) with
      | Ok text => Ok (c, text)
      | Raise _ => Ok ("error", error_msg)
      end
  | None => Ok ("forward_to_customer_service", forward_msg)
  end.
Proof.
  intros c w1. unfold handle_email, try_except.
  unfold bind at 1. rewrite classify_email_run. fold c w1.
  pose proof (classification_of_cases (fst (classification_chain svc email w)))
    as Hc.
  fold c in Hc. destruct Hc as [Hin | Herr].
  - unfold categories in Hin. simpl in Hin.
    destruct Hin as [Hin|[Hin|[Hin|[Hin|[]]]]]; rewrite <- Hin;
      unfold handler_of; eval_eqb; unfold bind, ret.
    + now destruct (handle_positive_review svc email w1) as [[t|e] w2].
    + now destruct (chat_invoke svc (negative_prompt email) w1) as [[t|e] w2].
    + now destruct (handle_price_availability_inquiry svc email w1)
        as [[t|e] w2].
    + now destruct (handle_general_inquiry svc email w1) as [[t|e] w2].
  - rewrite Herr. reflexivity.
Qed.

(** C1, as the program has it: [handle_email] always returns one pair and
    never raises.  Its category is the classifier's category, paired with
    the handler's text, when classification succeeds and the handler
    returns; it is [error], with the static apology, when classification
    succeeds and the handler raises; it is [forward_to_customer_service],
    with the static forwarding message, when the classifier answers
    [error].  No other category is returned. *)
Theorem handle_email_outcomes
        (svc : Services) (email : string) (w : World) :
  exists cat text,
    fst (handle_email svc email w) = Ok (cat, text) /\
    In cat outcome_categories /\
    match classify_email svc email w with
    | (Ok c, w1) =>
        match handler_of svc c with
        | Some handler =>
            In c categories /\
            match fst (handler email w1) with
            | Ok t => (cat, text) = (c, t)
            | Raise _ => (cat, text) = ("error", error_msg)
            end
        | None =>
            c = "error" /\
            (cat, text) = ("forward_to_customer_service", forward_msg)
        end
    | (Raise _, _) => False
    end.
Proof.
  rewrite classify_email_run, handle_email_run.
  set (c := classification_of (fst (classification_chain svc email w))).
  set (w1 := snd (classification_chain svc email w)).
  assert (Hout : forall x, In x categories -> In x outcome_categories).
  { intros x Hx. unfold outcome_categories. apply in_or_app. now left. }
  pose proof (classification_of_cases (fst (classification_chain svc email w)))
    as Hc.
  fold c in Hc. destruct Hc as [Hin | Herr].
  - destruct (handler_of_category svc c Hin) as [h Hh]. rewrite Hh.
    destruct (fst (h email w1)) as [t|e].
    + exists c, t. auto.
    + exists "error", error_msg. repeat split; auto.
      unfold outcome_categories, categories. simpl. tauto.
  - rewrite Herr, handler_of_error.
    exists "forward_to_customer_service", forward_msg. repeat split.
    unfold outcome_categories, categories. simpl. tauto.
Qed.

(** C1, counterexample: classification succeeds with [positive_review],
    the handler's completion call raises, and the router returns the
    category [error], which is none of the four. *)
Lemma category_rule_fails_when_handler_raises :
  fst (classify_email svc_handler_fails "Great lens!" empty_world)
    = Ok "positive_review" /\
  fst (handle_email svc_handler_fails "Great lens!" empty_world)
    = Ok ("error", error_msg) /\
  ~ category_rule svc_handler_fails "Great lens!" empty_world.
Proof.
  split; [reflexivity|]. split; [reflexivity|].
  intros (cat & text & Hrun & Hrule).
  change (fst (handle_email svc_handler_fails "Great lens!" empty_world))
    with (@Ok (string * string) ("error", error_msg)) in Hrun.
  change (fst (classify_email svc_handler_fails "Great lens!" empty_world))
    with (@Ok string "positive_review") in Hrule.
  injection Hrun as <- _. destruct Hrule as [Hcat _].
  apply error_not_category, Hcat.
  unfold categories. simpl. tauto.
Qed.

(** C3, counterexample: the classification call raises and the router
    returns [forward_to_customer_service], not [error]. *)
Lemma classifier_failure_is_not_error :
  fst (classification_chain svc_down "Is the lens free?" empty_world)
    = Raise completion_error /\
  fst (handle_email svc_down "Is the lens free?" empty_world)
    = Ok ("forward_to_customer_service", forward_msg) /\
  ~ classifier_failure_rule svc_down "Is the lens free?" empty_world.
Proof.
  split; [reflexivity|]. split; [reflexivity|].
  intros Hrule. destruct (Hrule completion_error eq_refl) as [text Hrun].
  change (fst (handle_email svc_down "Is the lens free?" empty_world))
    with (@Ok (string * string) ("forward_to_customer_service", forward_msg))
    in Hrun.
  discriminate Hrun.
Qed.

(** C3, as the program has it: when the call of the classifier raises,
    the router returns [forward_to_customer_service] with the static
    forwarding message; it does not raise, and no handler is run (the
    world is left as the classification call left it). *)
Theorem classifier_failure_is_forwarded
        (svc : Services) (email : string) (w : World) (e : exn) :
  fst (classification_chain svc email w) = Raise e ->
  handle_email svc email w =
  (Ok ("forward_to_customer_service", forward_msg),
   snd (classification_chain svc email w)).
Proof.
  intros Hraise. unfold handle_email, try_except. unfold bind at 1.
  rewrite classify_email_run, Hraise. reflexivity.
Qed.

Lemma classifier_failure_is_forwarded_witness :
  fst (classification_chain svc_down "Is the lens free?" empty_world)
    = Raise completion_error /\
  fst (handle_email svc_down "Is the lens free?" empty_world)
    = Ok ("forward_to_customer_service", forward_msg).
Proof.
  split; [reflexivity|].
  rewrite (classifier_failure_is_forwarded
             svc_down "Is the lens free?" empty_world completion_error);
    reflexivity.
Defined.

(* ================================================================== *)
(** ** The name extractor and the price and availability handler *)

(** The extractor never raises: one call to the Completion Service, the
    trimmed text when it returns and [None] when it raises. *)
Lemma extract_equipment_name_run
      (svc : Services) (email : string) (w : World) :
  extract_equipment_name svc email w =
  (Ok match complete svc (chat_calls w) (extraction_prompt email) with
      | Ok content => Some (strip content)
      | Raise _ => None
      end,
   mkWorld (table w) (chat_calls w ++ [extraction_prompt email])%list
           (db_queries w) (retrievals w)).
Proof.
  unfold extract_equipment_name, try_except, bind, chat_invoke, ret.
  now destruct (complete svc (chat_calls w) (extraction_prompt email)).
Qed.

Lemma handle_price_availability_inquiry_run
      (svc : Services) (email : string) (w : World) (o : option string) :
  fst (extract_equipment_name svc email w) = Ok o ->
  handle_price_availability_inquiry svc email w =
  (Ok (price_reply svc o (table w)),
   mkWorld (table w) (chat_calls w ++ [extraction_prompt email])%list
           (db_queries w ++ looked_up o)%list (retrievals w)).
Proof.
  unfold handle_price_availability_inquiry. unfold bind at 1.
  rewrite extract_equipment_name_run. simpl. intros Ho.
  injection Ho as Ho. rewrite Ho.
  destruct o as [n|]; simpl.
  - destruct n as [|c n]; simpl.
    + unfold ret. now rewrite app_nil_r.
    + unfold session_scope, bind, query_first, ret. simpl.
      now destruct (first_by_name (String c n) (table w)).
  - unfold ret. now rewrite app_nil_r.
Qed.

Lemma truthy_nonempty (n : string) : n <> "" -> truthy n = true.
Proof. destruct n; [congruence | reflexivity]. Qed.

Lemma first_by_name_Some (n : string) (rows : list Equipment) (r : Equipment) :
  first_by_name n rows = Some r -> In r rows /\ name r = n.
Proof.
  unfold first_by_name. intros H. apply find_some in H as [Hin Heq].
  split; [assumption | now apply String.eqb_eq].
Qed.

Lemma first_by_name_None (n : string) (rows : list Equipment) :
  first_by_name n rows = None <-> forall r, In r rows -> name r <> n.
Proof.
  unfold first_by_name. split.
  - intros H r Hin Heq. pose proof (find_none _ _ H r Hin) as Hn.
    simpl in Hn. apply String.eqb_neq in Hn. contradiction.
  - intros H. destruct (find _ rows) as [r|] eqn:Hf; [|reflexivity].
    apply find_some in Hf as [Hin Heq]. apply String.eqb_eq in Heq.
    now destruct (H r Hin).
Qed.

(** C4: when the extractor returns a name and the catalog lookup finds
    the record [r] of that name, the handler returns
    [The {name} is {available|not available} for rent at ${price} per day.],
    the literal being chosen by the availability field of [r]; for the
    record [Canon EF 24-70mm] of price [50.00] that is available, the
    reply contains [available for rent at $50.0 per day]. *)
Theorem price_reply_for_catalog_match
        (svc : Services) (email : string) (w : World)
        (n : string) (r : Equipment) :
  fst (extract_equipment_name svc email w) = Ok (Some n) ->
  n <> "" ->
  first_by_name n (table w) = Some r ->
  name r = n /\
  fst (handle_price_availability_inquiry svc email w) =
    Ok ("The " ++ name r ++ " is "
          ++ (if truthy_bool (available r) then "available"
              else "not available")
          ++ " for rent at $" ++ PyFloat.str svc (price r) ++ " per day.") /\
  (n = "Canon EF 24-70mm" -> price r = PyFloat.of_Z 50 ->
   available r = Some true ->
   exists text,
     fst (handle_price_availability_inquiry svc email w) = Ok text /\
     contains "available for rent at $50.0 per day" text = true).
Proof.
  intros Hex Hn Hfind.
  rewrite (handle_price_availability_inquiry_run svc email w _ Hex). simpl.
  rewrite (truthy_nonempty n Hn), Hfind.
  split; [now apply first_by_name_Some in Hfind|].
  split; [reflexivity|].
  intros Hname Hprice Havail. eexists. split; [reflexivity|].
  unfold price_msg. rewrite Hprice, Havail.
  do 2 apply contains_after. reflexivity.
Qed.

Lemma price_reply_for_catalog_match_witness :
  fst (handle_price_availability_inquiry
         svc_canon email_canon (mkWorld [canon_lens] [] [] []))
  = Ok "The Canon EF 24-70mm is available for rent at $50.0 per day.".
Proof.
  refine (proj1 (proj2 (price_reply_for_catalog_match
            svc_canon email_canon (mkWorld [canon_lens] [] [] [])
            "Canon EF 24-70mm" canon_lens _ _ _))).
  - reflexivity.
  - discriminate.
  - reflexivity.
Defined.

(** The first scenario of the specification, through the router. *)
Example canon_inquiry_is_answered_from_the_catalog :
  fst (handle_email
         (scripted [Ok "price_availability_inquiry"; Ok "Canon EF 24-70mm"]
                   (Ok []))
         email_canon (mkWorld sample_table [] [] []))
  = Ok ("price_availability_inquiry",
        "The Canon EF 24-70mm is available for rent at $50.0 per day.").
Proof. reflexivity. Qed.

Example unavailable_equipment_is_reported :
  fst (handle_price_availability_inquiry
         (scripted [Ok "DJI Ronin-S"] (Ok []))
         "Can I rent the DJI Ronin-S?" (mkWorld sample_table [] [] []))
  = Ok "The DJI Ronin-S is not available for rent at $75.0 per day.".
Proof. reflexivity. Qed.

(** C5: the catalog lookup is an exact comparison of names.  When the
    extracted name is different from the name of every row, whatever the
    difference (letter case and white space included), the handler takes
    the apology branch and reports no price; [RED DSMC2] does not match
    the seeded row [RED DSMC 2]. *)
Theorem lookup_is_exact_match :
  (forall (svc : Services) (email : string) (w : World) (n : string),
      fst (extract_equipment_name svc email w) = Ok (Some n) ->
      n <> "" ->
      (forall r, In r (table w) -> name r <> n) ->
      first_by_name n (table w) = None /\
      fst (handle_price_availability_inquiry svc email w)
        = Ok (no_match_msg n)) /\
  (forall (svc : Services) (email : string) (w : World),
      fst (extract_equipment_name svc email w) = Ok (Some "RED DSMC2") ->
      table w = sample_table ->
      (exists r, In r (table w) /\ name r = "RED DSMC 2") /\
      first_by_name "RED DSMC2" (table w) = None /\
      fst (handle_price_availability_inquiry svc email w)
        = Ok (no_match_msg "RED DSMC2")).
Proof.
  assert (Hgen : forall svc email w n,
             fst (extract_equipment_name svc email w) = Ok (Some n) ->
             n <> "" ->
             (forall r, In r (table w) -> name r <> n) ->
             first_by_name n (table w) = None /\
             fst (handle_price_availability_inquiry svc email w)
               = Ok (no_match_msg n)).
  { intros svc email w n Hex Hn Hdiff.
    apply first_by_name_None in Hdiff. split; [assumption|].
    rewrite (handle_price_availability_inquiry_run svc email w _ Hex). simpl.
    now rewrite (truthy_nonempty n Hn), Hdiff. }
  split; [exact Hgen|].
  intros svc email w Hex Htable. split.
  - rewrite Htable. eexists. split; [left; reflexivity | reflexivity].
  - apply Hgen; [assumption | discriminate |].
    apply first_by_name_None. now rewrite Htable.
Qed.

Lemma lookup_is_exact_match_witness :
  first_by_name "RED DSMC2" sample_table = None /\
  fst (handle_price_availability_inquiry
         svc_red email_red (mkWorld sample_table [] [] []))
  = Ok "We're sorry, but we don't have information about RED DSMC2 in our database. Please contact our customer service for more details.".
Proof.
  refine (proj1 lookup_is_exact_match
            svc_red email_red (mkWorld sample_table [] [] [])
            "RED DSMC2" _ _ _).
  - reflexivity.
  - discriminate.
  - apply first_by_name_None. reflexivity.
Defined.

(** Differences of letter case or of white space are differences: the
    comparison of names folds neither. *)
Example names_differ_by_case_and_space :
  first_by_name "red dsmc 2" sample_table = None /\
  first_by_name "RED  DSMC 2" sample_table = None /\
  first_by_name "RED DSMC 2" sample_table <> None.
Proof. repeat split; discriminate. Qed.

(** C7: when the extractor returns null, or a name that no row of the
    catalog carries, the handler returns (it does not raise) a text that
    sends the user to customer service: the generic fallback for null,
    the apology that names the extracted equipment for a name without a
    match. *)
Theorem extraction_miss_is_apology
        (svc : Services) (email : string) (w : World) (o : option string) :
  fst (extract_equipment_name svc email w) = Ok o ->
  o = None \/ (exists n, o = Some n /\ first_by_name n (table w) = None) ->
  exists text,
    fst (handle_price_availability_inquiry svc email w) = Ok text /\
    contains "contact our customer service" text = true /\
    match o with
    | None => text = fallback_msg
    | Some n =>
        contains n text = true /\ (n <> "" -> text = no_match_msg n)
    end.
Proof.
  intros Hex Hmiss.
  rewrite (handle_price_availability_inquiry_run svc email w _ Hex). simpl.
  eexists. split; [reflexivity|].
  destruct Hmiss as [-> | (n & -> & Hnone)]; simpl.
  - split; reflexivity.
  - rewrite Hnone. destruct n as [|c n]; simpl truthy; cbv iota.
    + repeat split. congruence.
    + split; [|split; [|reflexivity]].
      * unfold no_match_msg. do 2 apply contains_after. reflexivity.
      * unfold no_match_msg. apply contains_after.
        apply contains_iff. exists 0. apply occurs_at_0, prefix_iff.
        now eexists.
Qed.

Lemma extraction_miss_is_apology_witness :
  (exists text,
      fst (handle_price_availability_inquiry
             svc_down email_red (mkWorld sample_table [] [] [])) = Ok text /\
      contains "contact our customer service" text = true /\
      text = fallback_msg) /\
  (exists text,
      fst (handle_price_availability_inquiry
             svc_red email_red (mkWorld sample_table [] [] [])) = Ok text /\
      contains "contact our customer service" text = true /\
      contains "RED DSMC2" text = true /\
      ("RED DSMC2" <> "" -> text = no_match_msg "RED DSMC2")).
Proof.
  split.
  - refine (extraction_miss_is_apology
              svc_down email_red (mkWorld sample_table [] [] []) None _ _).
    + reflexivity.
    + left. reflexivity.
  - refine (extraction_miss_is_apology
              svc_red email_red (mkWorld sample_table [] [] [])
              (Some "RED DSMC2") _ _).
    + reflexivity.
    + right. exists "RED DSMC2". split; reflexivity.
Defined.

(** C10: an empty extracted name is handled exactly as a null
    extraction: the handler returns the generic fallback message and
    leaves the world as the extractor left it, so that the catalog is
    not queried. *)
Theorem empty_name_is_not_looked_up
        (svc : Services) (email : string) (w : World) (o : option string) :
  fst (extract_equipment_name svc email w) = Ok o ->
  o = Some "" \/ o = None ->
  handle_price_availability_inquiry svc email w =
    (Ok fallback_msg, snd (extract_equipment_name svc email w)) /\
  db_queries (snd (handle_price_availability_inquiry svc email w))
    = db_queries w /\
  table (snd (handle_price_availability_inquiry svc email w)) = table w.
Proof.
  intros Hex Hempty.
  rewrite (handle_price_availability_inquiry_run svc email w _ Hex).
  rewrite extract_equipment_name_run.
  destruct Hempty as [-> | ->]; simpl; rewrite app_nil_r; auto.
Qed.

Lemma empty_name_is_not_looked_up_witness :
  fst (extract_equipment_name
         svc_blank email_red (mkWorld sample_table [] [] [])) = Ok (Some "") /\
  fst (handle_price_availability_inquiry
         svc_blank email_red (mkWorld sample_table [] [] []))
    = Ok fallback_msg /\
  db_queries (snd (handle_price_availability_inquiry
                     svc_blank email_red (mkWorld sample_table [] [] [])))
    = [].
Proof.
  split; [reflexivity|].
  destruct (empty_name_is_not_looked_up
              svc_blank email_red (mkWorld sample_table [] [] [])
              (Some "") eq_refl (or_introl eq_refl)) as (Hrun & Hq & _).
  split; [now rewrite Hrun | exact Hq].
Defined.

(* ================================================================== *)
(** ** The negative-review branch of the router *)

(** When the classifier answers [negative_review], the router makes one
    more call to the Completion Service, with the negative-review prompt,
    and returns the text of the completion as it is; it touches neither
    the catalog nor the retriever. *)
Lemma handle_email_negative_review
      (svc : Services) (email : string) (w : World) :
  let w1 := snd (classification_chain svc email w) in
  classification_of (fst (classification_chain svc email w))
    = "negative_review" ->
  handle_email svc email w =
  (match complete svc (chat_calls w1) (negative_prompt email) with
   | Ok content => Ok ("negative_review", content)
   | Raise _ => Ok ("error", error_msg)
   end,
   mkWorld (table w1) (chat_calls w1 ++ [negative_prompt email])%list
           (db_queries w1) (retrievals w1)).
Proof.
  intros w1 Hneg. unfold handle_email, try_except. unfold bind at 1.
  rewrite classify_email_run, Hneg. fold w1. eval_eqb.
  unfold bind, chat_invoke, ret.
  now destruct (complete svc (chat_calls w1) (negative_prompt email)).
Qed.

(** C6, on the failing input: for an email classified [negative_review]
    the router returns the completion with its surrounding white space,
    which is not the trimmed text; [handle_positive_review] trims the
    same completion. *)
Theorem negative_review_reply_is_not_trimmed :
  fst (handle_email svc_negative email_negative empty_world)
    = Ok ("negative_review", reply_with_blanks) /\
  strip reply_with_blanks = "We apologise for the inconvenience." /\
  strip reply_with_blanks <> reply_with_blanks /\
  fst (handle_email svc_positive email_negative empty_world)
    = Ok ("positive_review", strip reply_with_blanks).
Proof.
  split; [reflexivity|]. split; [reflexivity|].
  split; [discriminate | reflexivity].
Qed.

(* ================================================================== *)
(** ** The general-inquiry handler *)

(** C9, counterexample: with zero chunks retrieved, the handler raises
    when the generation call raises, and returns the empty text when the
    completion is empty. *)
Lemma zero_chunks_rule_fails :
  fst (handle_general_inquiry svc_down email_general empty_world)
    = Raise completion_error /\
  fst (handle_general_inquiry svc_mute email_general empty_world) = Ok "" /\
  ~ zero_chunks_rule svc_down email_general empty_world /\
  ~ zero_chunks_rule svc_mute email_general empty_world.
Proof.
  split; [reflexivity|]. split; [reflexivity|]. split.
  - intros Hrule. destruct (Hrule eq_refl) as (text & Hrun & _).
    discriminate Hrun.
  - intros Hrule. destruct (Hrule eq_refl) as (text & Hrun & Hne).
    injection Hrun as <-. now apply Hne.
Qed.

(** C9, as the program has it: when the retriever returns zero chunks the
    handler still makes the generation call, once, with the prompt of an
    empty context, and its outcome is the outcome of that call: the
    generated text unmodified when the call returns, the exception when
    it raises.  The catalog is not touched. *)
Theorem general_inquiry_with_zero_chunks
        (svc : Services) (email : string) (w : World) :
  search_index svc email = Ok [] ->
  handle_general_inquiry svc email w =
  (complete svc (chat_calls w) (stuff_prompt svc "" email),
   mkWorld (table w) (chat_calls w ++ [stuff_prompt svc "" email])%list
           (db_queries w) (retrievals w ++ [email])%list).
Proof.
  intros Hzero.
  unfold handle_general_inquiry, qa_chain_run, bind, retrieve, chat_invoke.
  rewrite Hzero. simpl.
  now destruct (complete svc (chat_calls w) (stuff_prompt svc "" email)).
Qed.

Lemma general_inquiry_with_zero_chunks_witness :
  fst (handle_general_inquiry svc_answers email_general empty_world)
    = Ok "I don't know." /\
  fst (handle_general_inquiry svc_down email_general empty_world)
    = Raise completion_error.
Proof.
  split.
  - rewrite (general_inquiry_with_zero_chunks
               svc_answers email_general empty_world eq_refl).
    reflexivity.
  - rewrite (general_inquiry_with_zero_chunks
               svc_down email_general empty_world eq_refl).
    reflexivity.
Defined.

(* ================================================================== *)
(** ** Seeding the catalog *)

(** Seeding never raises; it queries the catalog once per equipment and
    changes nothing but the table. *)
Lemma seed_run (equipments : list Equipment) (w : World) :
  seed equipments w =
  (Ok tt,
   mkWorld (seed_rows equipments (table w)) (chat_calls w)
           (db_queries w ++ map name equipments)%list (retrievals w)).
Proof.
  unfold seed, session_scope.
  assert (Hloop : forall w,
             for_each equipments
               (fun equipment =>
                  existing <- query_first (name equipment);;
                  match existing with
                  | Some _ => ret tt
                  | None => session_add equipment
                  end) w =
             (Ok tt,
              mkWorld (seed_rows equipments (table w)) (chat_calls w)
                      (db_queries w ++ map name equipments)%list
                      (retrievals w))).
  { induction equipments as [|e rest IH]; intros [t c q r]; simpl.
    - unfold ret. now rewrite app_nil_r.
    - unfold bind at 1. unfold bind at 1. unfold query_first. simpl.
      unfold insert_if_absent.
      destruct (first_by_name (name e) t) as [found|] eqn:Hf.
      + unfold ret. rewrite IH. simpl. now rewrite <- app_assoc.
      + unfold session_add, set_table. simpl. rewrite IH. simpl.
        now rewrite <- app_assoc. }
  now rewrite Hloop.
Qed.

Lemma first_by_name_app (n : string) (rows more : list Equipment) :
  first_by_name n rows <> None -> first_by_name n (rows ++ more) <> None.
Proof.
  unfold first_by_name. induction rows as [|r rows IH]; simpl.
  - congruence.
  - destruct (name r =? n); [discriminate | exact IH].
Qed.

Lemma insert_if_absent_keeps (e : Equipment) (n : string)
      (rows : list Equipment) :
  first_by_name n rows <> None ->
  first_by_name n (insert_if_absent e rows) <> None.
Proof.
  unfold insert_if_absent.
  destruct (first_by_name (name e) rows); [trivial|].
  apply first_by_name_app.
Qed.

Lemma first_by_name_last (rows : list Equipment) (row : Equipment) :
  first_by_name (name row) (rows ++ [row]) <> None.
Proof.
  unfold first_by_name. induction rows as [|r rows IH]; simpl.
  - now rewrite String.eqb_refl.
  - destruct (name r =? name row); [discriminate | exact IH].
Qed.

Lemma insert_if_absent_present (e : Equipment) (rows : list Equipment) :
  first_by_name (name e) (insert_if_absent e rows) <> None.
Proof.
  unfold insert_if_absent.
  destruct (first_by_name (name e) rows) eqn:Hf; [congruence|].
  apply (first_by_name_last rows
           (mkEquipment (Some (next_id rows)) (name e) (category e)
                        (price e) (available e))).
Qed.

Lemma seed_rows_keeps (equipments : list Equipment) (n : string)
      (rows : list Equipment) :
  first_by_name n rows <> None ->
  first_by_name n (seed_rows equipments rows) <> None.
Proof.
  revert rows. induction equipments as [|e rest IH]; intros rows H; simpl.
  - assumption.
  - now apply IH, insert_if_absent_keeps.
Qed.

(** After seeding, every seeded name is in the table. *)
Lemma seed_rows_present (equipments rows : list Equipment) (e : Equipment) :
  In e equipments ->
  first_by_name (name e) (seed_rows equipments rows) <> None.
Proof.
  revert rows. induction equipments as [|x rest IH]; intros rows Hin.
  - destruct Hin.
  - simpl. destruct Hin as [-> | Hin].
    + apply seed_rows_keeps, insert_if_absent_present.
    + now apply IH.
Qed.

(** Seeding names that are all in the table inserts nothing. *)
Lemma seed_rows_nothing_to_add (equipments rows : list Equipment) :
  (forall e, In e equipments -> first_by_name (name e) rows <> None) ->
  seed_rows equipments rows = rows.
Proof.
  induction equipments as [|x rest IH]; intros H; simpl; [reflexivity|].
  assert (Hx : insert_if_absent x rows = rows).
  { unfold insert_if_absent.
    destruct (first_by_name (name x) rows) eqn:Hf; [reflexivity|].
    now destruct (H x (or_introl eq_refl)). }
  rewrite Hx. apply IH. intros e He. apply H. now right.
Qed.

Lemma seed_rows_idempotent (equipments rows : list Equipment) :
  seed_rows equipments (seed_rows equipments rows)
  = seed_rows equipments rows.
Proof.
  apply seed_rows_nothing_to_add. intros e He. now apply seed_rows_present.
Qed.

Lemma count_name_zero (n : string) (rows : list Equipment) :
  count_name n rows = 0 <-> first_by_name n rows = None.
Proof.
  unfold count_name. rewrite <- count_occ_not_In, first_by_name_None.
  rewrite in_map_iff. split.
  - intros H r Hin Heq. apply H. now exists r.
  - intros H (r & Heq & Hin). now apply (H r).
Qed.

Lemma count_name_insert (e : Equipment) (n : string)
      (rows : list Equipment) :
  count_name n rows <= 1 -> count_name n (insert_if_absent e rows) <= 1.
Proof.
  unfold insert_if_absent.
  destruct (first_by_name (name e) rows) eqn:Hf; [trivial|].
  intros Hle. unfold count_name in *.
  rewrite map_app, count_occ_app. simpl.
  destruct (string_dec (name e) n) as [Heq|Hne]; [|lia].
  apply count_name_zero in Hf. unfold count_name in Hf.
  rewrite Heq in Hf. lia.
Qed.

(** Seeding keeps the names of the table distinct. *)
Lemma seed_rows_count (equipments : list Equipment) (n : string)
      (rows : list Equipment) :
  count_name n rows <= 1 -> count_name n (seed_rows equipments rows) <= 1.
Proof.
  revert rows. induction equipments as [|e rest IH]; intros rows H; simpl.
  - assumption.
  - now apply IH, count_name_insert.
Qed.

Lemma seed_rows_NoDup (equipments rows : list Equipment) :
  NoDup (map name rows) -> NoDup (map name (seed_rows equipments rows)).
Proof.
  rewrite !(NoDup_count_occ string_dec). intros H n.
  apply (seed_rows_count equipments n rows), H.
Qed.

Lemma seed_rows_exactly_one (equipments rows : list Equipment)
      (e : Equipment) :
  NoDup (map name rows) -> In e equipments ->
  count_name (name e) (seed_rows equipments rows) = 1.
Proof.
  intros Hnd Hin.
  assert (Hle : count_name (name e) (seed_rows equipments rows) <= 1).
  { apply seed_rows_count. now apply (NoDup_count_occ string_dec). }
  pose proof (seed_rows_present equipments rows e Hin) as Hpresent.
  rewrite <- count_name_zero in Hpresent. lia.
Qed.

(** C8: seeding is idempotent.  [add_sample_data] never raises; when the
    catalog holds a record for each sample name it inserts nothing;
    seeding twice gives the table that seeding once gives; and from a
    catalog without duplicate names the result has no duplicate names and
    exactly one record for each sample name. *)
Theorem add_sample_data_idempotent (w : World) :
  let once := snd (add_sample_data w) in
  let twice := snd (add_sample_data once) in
  fst (add_sample_data w) = Ok tt /\
  fst (add_sample_data once) = Ok tt /\
  table twice = table once /\
  ((forall e, In e sample_equipment ->
              exists r, In r (table w) /\ name r = name e) ->
   table once = table w) /\
  (NoDup (map name (table w)) ->
   NoDup (map name (table twice)) /\
   forall e, In e sample_equipment ->
             count_name (name e) (table twice) = 1).
Proof.
  unfold add_sample_data. rewrite !seed_run. cbn [fst snd table].
  split; [reflexivity|]. split; [reflexivity|].
  split; [apply seed_rows_idempotent|]. split.
  - intros Hall. apply seed_rows_nothing_to_add. intros e He Hnone.
    destruct (Hall e He) as (r & Hr & Hname).
    rewrite first_by_name_None in Hnone. now apply (Hnone r Hr).
  - intros Hnd. rewrite seed_rows_idempotent. split.
    + now apply seed_rows_NoDup.
    + intros e He. now apply seed_rows_exactly_one.
Qed.

Lemma add_sample_data_idempotent_witness :
  table (snd (add_sample_data (mkWorld sample_table [] [] [])))
    = sample_table /\
  NoDup (map name (table (snd (add_sample_data
                                 (snd (add_sample_data empty_world)))))) /\
  map name (table (snd (add_sample_data (snd (add_sample_data empty_world)))))
    = ["RED DSMC 2"; "Canon EF 24-70mm"; "DJI Ronin-S"; "ARRI SkyPanel S60-C"].
Proof.
  split; [|split].
  - refine (proj1 (proj2 (proj2 (proj2
              (add_sample_data_idempotent (mkWorld sample_table [] [] [])))))
              _).
    intros e He. cbn [table].
    destruct (first_by_name (name e) sample_table) as [r|] eqn:Hf.
    + exists r. now apply first_by_name_Some in Hf.
    + exfalso. revert Hf.
      destruct He as [<-|[<-|[<-|[<-|[]]]]]; vm_compute; discriminate.
  - refine (proj1 (proj2 (proj2 (proj2 (proj2
              (add_sample_data_idempotent empty_world)))) _)).
    constructor.
  - reflexivity.
Defined.

(** Seeding is idempotent for every list of equipment, also one that
    repeats a name: the first insertion is seen by the later lookups. *)
Corollary seed_twice (equipments : list Equipment) (w : World) :
  table (snd (seed equipments (snd (seed equipments w))))
  = table (snd (seed equipments w)).
Proof. rewrite !seed_run. cbn [fst snd table]. apply seed_rows_idempotent. Qed.


(* ================================================================== *)
(** ** Trimming and lower-casing *)

Lemma rstrip_keeps_head (c : ascii) (s : string) :
  isspace c = false -> exists r, rstrip (String c s) = String c r.
Proof.
  intros Hc. simpl. destruct (rstrip s) as [|d r].
  - rewrite Hc. now exists "".
  - now exists (String d r).
Qed.

Lemma strip_no_leading_space (s : string) :
  starts_with_space (strip s) = false.
Proof.
  unfold strip. induction s as [|c s IH]; [reflexivity|].
  cbn [lstrip]. destruct (isspace c) eqn:Hc; [exact IH|].
  destruct (rstrip_keeps_head c s Hc) as [r ->]. exact Hc.
Qed.

Lemma rstrip_no_trailing_space (s : string) :
  ends_with_space (rstrip s) = false.
Proof.
  induction s as [|c s IH]; [reflexivity|].
  cbn [rstrip]. destruct (rstrip s) as [|d r].
  - destruct (isspace c) eqn:Hc; [reflexivity | exact Hc].
  - exact IH.
Qed.

Lemma strip_no_trailing_space (s : string) :
  ends_with_space (strip s) = false.
Proof. apply rstrip_no_trailing_space. Qed.

Lemma isspace_lower_char (c : ascii) : isspace (lower_char c) = isspace c.
Proof. destruct c as [[] [] [] [] [] [] [] []]; reflexivity. Qed.

Lemma lower_char_idempotent (c : ascii) :
  lower_char (lower_char c) = lower_char c.
Proof. destruct c as [[] [] [] [] [] [] [] []]; reflexivity. Qed.

Lemma lower_idempotent (s : string) : lower (lower s) = lower s.
Proof.
  induction s as [|c s IH]; [reflexivity|].
  cbn [lower]. now rewrite lower_char_idempotent, IH.
Qed.

Lemma lstrip_lower (s : string) : lstrip (lower s) = lower (lstrip s).
Proof.
  induction s as [|c s IH]; [reflexivity|].
  cbn [lower lstrip]. rewrite isspace_lower_char.
  destruct (isspace c); [exact IH | reflexivity].
Qed.

Lemma rstrip_lower (s : string) : rstrip (lower s) = lower (rstrip s).
Proof.
  induction s as [|c s IH]; [reflexivity|].
  cbn [lower rstrip]. rewrite IH, isspace_lower_char.
  destruct (rstrip s) as [|d r]; cbn [lower].
  - now destruct (isspace c).
  - reflexivity.
Qed.

Lemma strip_lower (s : string) : strip (lower s) = lower (strip s).
Proof. unfold strip. now rewrite lstrip_lower, rstrip_lower. Qed.

(* ================================================================== *)
(** ** Further properties of the classifier *)

(** X1: a completion that is, once trimmed and lower-cased, exactly one
    of the four category names is classified as that category, whatever
    its letter case and the white space around it. *)
Theorem classify_email_accepts_exact_answer
        (svc : Services) (email : string) (w : World) (raw c : string) :
  fst (classification_chain svc email w) = Ok raw ->
  In c categories ->
  lower (strip raw) = c ->
  fst (classify_email svc email w) = Ok c.
Proof.
  intros Hraw Hin Hc. rewrite classify_email_run, Hraw. simpl. rewrite Hc.
  unfold categories in Hin. simpl in Hin.
  destruct Hin as [<-|[<-|[<-|[<-|[]]]]]; reflexivity.
Qed.

Lemma classify_email_accepts_exact_answer_witness :
  fst (classify_email
         (scripted [Ok ("  General_Inquiry " ++ nl)] (Ok []))
         "How do I balance the gimbal?" empty_world)
  = Ok "general_inquiry".
Proof.
  refine (classify_email_accepts_exact_answer
            (scripted [Ok ("  General_Inquiry " ++ nl)] (Ok []))
            "How do I balance the gimbal?" empty_world
            ("  General_Inquiry " ++ nl) "general_inquiry" _ _ _).
  - reflexivity.
  - unfold categories. simpl. tauto.
  - reflexivity.
Defined.

(** X2: the answer of the classifier does not depend on the letter case
    of the completion: two completions that are equal once lower-cased
    are classified alike. *)
Theorem classify_email_ignores_case
        (svc svc' : Services) (email email' : string) (w w' : World)
        (raw raw' : string) :
  fst (classification_chain svc email w) = Ok raw ->
  fst (classification_chain svc' email' w') = Ok raw' ->
  lower raw = lower raw' ->
  fst (classify_email svc email w) = fst (classify_email svc' email' w').
Proof.
  intros Hraw Hraw' Hlow. rewrite !classify_email_run, Hraw, Hraw'. simpl.
  now rewrite <- !strip_lower, Hlow.
Qed.

Lemma classify_email_ignores_case_witness :
  fst (classify_email svc_shouting "Great lens!" empty_world)
  = fst (classify_email svc_quiet "Great lens!" empty_world).
Proof.
  refine (classify_email_ignores_case
            svc_shouting svc_quiet "Great lens!" "Great lens!"
            empty_world empty_world "POSITIVE_REVIEW" "positive_review"
            _ _ _); reflexivity.
Defined.

Lemma contains_char_app (c : ascii) (a b : string) :
  contains (String c "") (a ++ b)
  = contains (String c "") a || contains (String c "") b.
Proof.
  induction a as [|d a IH].
  - simpl append. rewrite (contains_unfold _ ""). simpl.
    reflexivity.
  - simpl append. rewrite (contains_unfold _ (String d (a ++ b))).
    rewrite (contains_unfold _ (String d a)). simpl.
    destruct (ascii_dec c d) as [_|_].
    + now destruct (a ++ b), a.
    + exact IH.
Qed.

(** The fixed text of the classification prompt holds no brace: the
    template needs the library's field rendering exactly when the email
    holds a brace. *)
Lemma has_brace_template (email : string) :
  has_brace (classify_human_template email) = has_brace email.
Proof.
  unfold has_brace, classify_human_template.
  rewrite !contains_char_app.
  generalize (contains "{" email) as open_in.
  generalize (contains "}" email) as close_in.
  intros close_in open_in. vm_compute. now destruct open_in, close_in.
Qed.

(** X3: an email without braces reaches the model verbatim, inside the
    fixed classification prompt: the classifier makes exactly one call,
    with that prompt, and touches nothing else. *)
Theorem classify_email_sends_email_verbatim
        (svc : Services) (email : string) (w : World) :
  has_brace email = false ->
  classify_email svc email w =
  (Ok (classification_of
         (complete svc (chat_calls w) (classification_prompt email))),
   mkWorld (table w) (chat_calls w ++ [classification_prompt email])%list
           (db_queries w) (retrievals w)).
Proof.
  intros Hb. rewrite classify_email_run.
  unfold classification_chain, render_template.
  rewrite has_brace_template, Hb. reflexivity.
Qed.

Lemma classify_email_sends_email_verbatim_witness :
  chat_calls (snd (classify_email svc_quiet "Great lens!" empty_world))
  = [classification_prompt "Great lens!"].
Proof.
  rewrite (classify_email_sends_email_verbatim
             svc_quiet "Great lens!" empty_world eq_refl).
  reflexivity.
Defined.

(** X4: when the email holds a brace and the rendering of the template
    raises, no call is made to the Completion Service: the classifier
    answers [error] and the router forwards the email to customer
    service, the world being left untouched. *)
Theorem braces_in_email_are_forwarded
        (svc : Services) (email : string) (w : World) (e : exn) :
  has_brace email = true ->
  format_fields svc (classify_human_template email) email = Raise e ->
  classify_email svc email w = (Ok "error", w) /\
  handle_email svc email w =
    (Ok ("forward_to_customer_service", forward_msg), w).
Proof.
  intros Hb Hfmt.
  assert (Hchain : classification_chain svc email w = (Raise e, w)).
  { unfold classification_chain, render_template, bind, lift.
    now rewrite has_brace_template, Hb, Hfmt. }
  assert (Hclass : classify_email svc email w = (Ok "error", w)).
  { now rewrite classify_email_run, Hchain. }
  split; [exact Hclass|].
  unfold handle_email, try_except. unfold bind at 1. now rewrite Hclass.
Qed.

Lemma braces_in_email_are_forwarded_witness :
  handle_email svc_quiet "Loved the {lens}!" empty_world =
  (Ok ("forward_to_customer_service", forward_msg), empty_world).
Proof.
  refine (proj2 (braces_in_email_are_forwarded
                   svc_quiet "Loved the {lens}!" empty_world
                   (Exception "KeyError") _ _)); reflexivity.
Defined.

(* ================================================================== *)
(** ** Further properties of the handlers *)

(** X5: the extractor never raises and makes exactly one call to the
    Completion Service; the name it returns, when there is one, is the
    trimmed completion, so that it neither begins nor ends with white
    space; the catalog and the other traces are left alone. *)
Theorem extract_equipment_name_is_trimmed
        (svc : Services) (email : string) (w : World) :
  exists o,
    extract_equipment_name svc email w =
      (Ok o,
       mkWorld (table w) (chat_calls w ++ [extraction_prompt email])%list
               (db_queries w) (retrievals w)) /\
    match o with
    | Some n =>
        starts_with_space n = false /\ ends_with_space n = false /\
        exists raw,
          complete svc (chat_calls w) (extraction_prompt email) = Ok raw /\
          n = strip raw
    | None =>
        exists e,
          complete svc (chat_calls w) (extraction_prompt email) = Raise e
    end.
Proof.
  rewrite extract_equipment_name_run.
  destruct (complete svc (chat_calls w) (extraction_prompt email))
    as [raw|e]; eexists; (split; [reflexivity|]); cbv beta iota.
  - split; [apply strip_no_leading_space|].
    split; [apply strip_no_trailing_space|]. now exists raw.
  - now exists e.
Qed.

(** X6: a reply of the positive-review handler is the trimmed
    completion: it neither begins nor ends with white space; the handler
    raises exactly when its single call to the Completion Service
    raises. *)
Theorem handle_positive_review_is_trimmed
        (svc : Services) (email : string) (w : World) :
  match complete svc (chat_calls w) (positive_prompt email) with
  | Ok raw =>
      fst (handle_positive_review svc email w) = Ok (strip raw) /\
      starts_with_space (strip raw) = false /\
      ends_with_space (strip raw) = false
  | Raise e => fst (handle_positive_review svc email w) = Raise e
  end /\
  effect w (snd (handle_positive_review svc email w))
         [positive_prompt email] [] [].
Proof.
  unfold handle_positive_review, bind, chat_invoke, ret, effect.
  destruct (complete svc (chat_calls w) (positive_prompt email)) as [raw|e];
    simpl; rewrite !app_nil_r;
    auto using strip_no_leading_space, strip_no_trailing_space.
Qed.


(* ================================================================== *)
(** ** Further properties of the router *)

Lemma effect_refl (w : World) : effect w w [] [] [].
Proof. unfold effect. now rewrite !app_nil_r. Qed.

Lemma effect_trans (w w1 w2 : World) (c1 c2 : list Prompt)
      (q1 q2 r1 r2 : list string) :
  effect w w1 c1 q1 r1 -> effect w1 w2 c2 q2 r2 ->
  effect w w2 (c1 ++ c2) (q1 ++ q2) (r1 ++ r2).
Proof.
  intros (Ht1 & Hc1 & Hq1 & Hr1) (Ht2 & Hc2 & Hq2 & Hr2). unfold effect.
  rewrite Ht2, Hc2, Hq2, Hr2, Ht1, Hc1, Hq1, Hr1.
  now rewrite !app_assoc.
Qed.

Lemma chat_invoke_effect (svc : Services) (p : Prompt) (w : World) :
  effect w (snd (chat_invoke svc p w)) [p] [] [].
Proof. unfold effect, chat_invoke. simpl. now rewrite !app_nil_r. Qed.

(** The classification makes at most one call. *)
Lemma classification_chain_effect
      (svc : Services) (email : string) (w : World) :
  exists calls,
    effect w (snd (classification_chain svc email w)) calls [] [] /\
    List.length calls <= 1.
Proof.
  unfold classification_chain, bind, lift.
  destruct (render_template svc (classify_human_template email) email)
    as [human|e].
  - eexists. split; [apply chat_invoke_effect | simpl; lia].
  - exists []. split; [apply effect_refl | simpl; lia].
Qed.

(** A handler makes at most one call, one catalog query and one
    retrieval; only the price handler queries the catalog and only the
    general-inquiry handler asks the retriever. *)
Lemma handler_effect (svc : Services) (c : string)
      (h : string -> M string) (email : string) (w : World) :
  handler_of svc c = Some h ->
  exists calls qs rs,
    effect w (snd (h email w)) calls qs rs /\
    List.length calls <= 1 /\ List.length qs <= 1 /\ List.length rs <= 1 /\
    (qs <> [] -> c = "price_availability_inquiry") /\
    (rs <> [] -> c = "general_inquiry").
Proof.
  unfold handler_of.
  destruct (c =? "positive_review") eqn:E1;
    [|destruct (c =? "negative_review") eqn:E2;
      [|destruct (c =? "price_availability_inquiry") eqn:E3;
        [|destruct (c =? "general_inquiry") eqn:E4; [|discriminate]]]];
    intros Hh; injection Hh as <-.
  - exists [positive_prompt email], [], []. split.
    + unfold handle_positive_review, bind, ret.
      pose proof (chat_invoke_effect svc (positive_prompt email) w) as He.
      destruct (chat_invoke svc (positive_prompt email) w) as [[t|e] w2];
        exact He.
    + simpl. repeat split; try lia; intros Hne; now destruct Hne.
  - exists [negative_prompt email], [], []. split.
    + apply chat_invoke_effect.
    + simpl. repeat split; try lia; intros Hne; now destruct Hne.
  - pose proof (f_equal fst (extract_equipment_name_run svc email w)) as Hex.
    cbn [fst] in Hex.
    rewrite (handle_price_availability_inquiry_run svc email w _ Hex).
    set (o := match complete svc (chat_calls w) (extraction_prompt email) with
              | Ok content => Some (strip content)
              | Raise _ => None
              end).
    exists [extraction_prompt email], (looked_up o), []. split.
    + unfold effect. cbn [snd table chat_calls db_queries retrievals].
      now rewrite app_nil_r.
    + apply String.eqb_eq in E3.
      assert (Hlen : List.length (looked_up o) <= 1).
      { destruct o as [n|]; simpl; [|lia]. destruct (truthy n); simpl; lia. }
      simpl. repeat split; try lia; try (intros Hne; now destruct Hne).
      intros _. exact E3.
  - apply String.eqb_eq in E4.
    unfold handle_general_inquiry, qa_chain_run, bind, retrieve.
    destruct (search_index svc email) as [chunks|e].
    + eexists [_], [], [email]. split.
      * unfold effect, chat_invoke. simpl. now rewrite app_nil_r.
      * simpl. repeat split; try lia; try (intros Hne; now destruct Hne).
        intros _. exact E4.
    + exists [], [], [email]. split.
      * unfold effect. simpl. now rewrite !app_nil_r.
      * simpl. repeat split; try lia; try (intros Hne; now destruct Hne).
        intros _. exact E4.
Qed.

Lemma handle_email_world (svc : Services) (email : string) (w : World) :
  let c := classification_of (fst (classification_chain svc email w)) in
  let w1 := snd (classification_chain svc email w) in
  snd (handle_email svc email w) =
  match handler_of svc c with
  | Some handler => snd (handler email w1)
  | None => w1
  end.
Proof.
  intros c w1. unfold handle_email, try_except.
  unfold bind at 1. rewrite classify_email_run. fold c w1.
  pose proof (classification_of_cases (fst (classification_chain svc email w)))
    as Hc.
  fold c in Hc. destruct Hc as [Hin | Herr].
  - unfold categories in Hin. simpl in Hin.
    destruct Hin as [Hin|[Hin|[Hin|[Hin|[]]]]]; rewrite <- Hin;
      unfold handler_of; eval_eqb; unfold bind, ret.
    + now destruct (handle_positive_review svc email w1) as [[t|e] w2].
    + now destruct (chat_invoke svc (negative_prompt email) w1) as [[t|e] w2].
    + now destruct (handle_price_availability_inquiry svc email w1)
        as [[t|e] w2].
    + now destruct (handle_general_inquiry svc email w1) as [[t|e] w2].
  - rewrite Herr. reflexivity.
Qed.

Lemma handle_email_effects (svc : Services) (email : string) (w : World) :
  let c := classification_of (fst (classification_chain svc email w)) in
  exists calls qs rs,
    effect w (snd (handle_email svc email w)) calls qs rs /\
    List.length calls <= 2 /\ List.length qs <= 1 /\ List.length rs <= 1 /\
    (qs <> [] -> c = "price_availability_inquiry") /\
    (rs <> [] -> c = "general_inquiry").
Proof.
  intros c. rewrite handle_email_world. fold c.
  destruct (classification_chain_effect svc email w) as (c1 & He1 & Hl1).
  destruct (handler_of svc c) as [h|] eqn:Hh.
  - destruct (handler_effect svc c h email
                (snd (classification_chain svc email w)) Hh)
      as (c2 & qs & rs & He2 & Hl2 & Hq & Hr & Hqs & Hrs).
    exists (c1 ++ c2)%list, qs, rs. split.
    + apply (effect_trans _ _ _ _ _ _ _ _ _ He1 He2).
    + rewrite length_app. repeat split; auto; lia.
  - exists c1, [], []. split; [assumption|].
    simpl. repeat split; try lia; congruence.
Qed.

(** X8: routing an email never changes the catalog, and it costs at most
    two calls to the Completion Service, one catalog query and one
    retrieval; the traces of the world only grow. *)
Theorem handle_email_is_read_only
        (svc : Services) (email : string) (w : World) :
  exists calls qs rs,
    effect w (snd (handle_email svc email w)) calls qs rs /\
    List.length calls <= 2 /\ List.length qs <= 1 /\ List.length rs <= 1.
Proof.
  destruct (handle_email_effects svc email w)
    as (calls & qs & rs & He & Hc & Hq & Hr & _).
  now exists calls, qs, rs.
Qed.

(** X9: the catalog is queried only for an email classified
    [price_availability_inquiry], and the retriever is asked only for an
    email classified [general_inquiry]. *)
Theorem handle_email_touches_only_its_branch
        (svc : Services) (email : string) (w : World) :
  (fst (classify_email svc email w) <> Ok "price_availability_inquiry" ->
   db_queries (snd (handle_email svc email w)) = db_queries w) /\
  (fst (classify_email svc email w) <> Ok "general_inquiry" ->
   retrievals (snd (handle_email svc email w)) = retrievals w).
Proof.
  rewrite classify_email_run. cbn [fst].
  destruct (handle_email_effects svc email w)
    as (calls & qs & rs & (_ & _ & Hqs & Hrs) & _ & _ & _ & Hq & Hr).
  split; intros Hneq.
  - destruct qs as [|q qs].
    + now rewrite Hqs, app_nil_r.
    + destruct Hneq. f_equal. now apply Hq.
  - destruct rs as [|r rs].
    + now rewrite Hrs, app_nil_r.
    + destruct Hneq. f_equal. now apply Hr.
Qed.

Lemma handle_email_touches_only_its_branch_witness :
  db_queries (snd (handle_email svc_quiet "Great lens!" empty_world)) = [] /\
  retrievals (snd (handle_email svc_price "Is the DJI Ronin-S free?"
                                empty_world)) = [].
Proof.
  split.
  - refine (proj1 (handle_email_touches_only_its_branch
                     svc_quiet "Great lens!" empty_world) _).
    discriminate.
  - refine (proj2 (handle_email_touches_only_its_branch
                     svc_price "Is the DJI Ronin-S free?" empty_world) _).
    discriminate.
Defined.

(** X10: the text that comes with the category [error] is always the
    static apology and the text that comes with
    [forward_to_customer_service] is always the static forwarding
    message: no text of an exception or of the model is returned with
    them. *)
Theorem failure_messages_are_static
        (svc : Services) (email : string) (w : World)
        (cat text : string) :
  fst (handle_email svc email w) = Ok (cat, text) ->
  (cat = "error" -> text = error_msg) /\
  (cat = "forward_to_customer_service" -> text = forward_msg).
Proof.
  rewrite handle_email_run.
  pose proof (classification_of_cases (fst (classification_chain svc email w)))
    as Hc.
  set (c := classification_of (fst (classification_chain svc email w))) in *.
  destruct (handler_of svc c) as [h|] eqn:Hh.
  - destruct (fst (h email (snd (classification_chain svc email w))))
      as [t|e]; intros Hrun; injection Hrun as <- <-.
    + destruct Hc as [Hin | Herr].
      * split; intros ->; exfalso.
        -- now apply error_not_category.
        -- unfold categories in Hin. simpl in Hin.
           intuition discriminate.
      * rewrite Herr, handler_of_error in Hh. discriminate.
    + split; [reflexivity | discriminate].
  - intros Hrun. injection Hrun as <- <-.
    split; [discriminate | reflexivity].
Qed.

Lemma failure_messages_are_static_witness :
  fst (handle_email svc_handler_fails "Great lens!" empty_world)
    = Ok ("error", error_msg) /\
  fst (handle_email svc_down "Great lens!" empty_world)
    = Ok ("forward_to_customer_service", forward_msg) /\
  error_msg = error_msg /\ forward_msg = forward_msg.
Proof.
  split; [reflexivity|]. split; [reflexivity|]. split.
  - refine (proj1 (failure_messages_are_static
                     svc_handler_fails "Great lens!" empty_world
                     "error" error_msg _) _); reflexivity.
  - refine (proj2 (failure_messages_are_static
                     svc_down "Great lens!" empty_world
                     "forward_to_customer_service" forward_msg _) _);
      reflexivity.
Defined.

(* ================================================================== *)
(** ** Further properties of the seeding *)


Lemma first_by_name_added (n : string) (rows more : list Equipment) :
  first_by_name n rows = None ->
  first_by_name n (rows ++ more) = first_by_name n more.
Proof.
  unfold first_by_name. induction rows as [|x rows IH]; simpl.
  - reflexivity.
  - destruct (name x =? n); [discriminate | exact IH].
Qed.

(** The rows that a seeding adds after the rows of the table: each is
    the copy of an equipment of the list whose name no earlier row
    carries. *)
Lemma seed_rows_appends (equipments rows : list Equipment) :
  exists added,
    seed_rows equipments rows = (rows ++ added)%list /\
    List.length added <= List.length equipments /\
    forall r, In r added ->
      exists e, In e equipments /\
                name r = name e /\ category r = category e /\
                price r = price e /\ available r = available e.
Proof.
  revert rows. induction equipments as [|x rest IH]; intros rows.
  - exists []. simpl. rewrite app_nil_r. repeat split; [lia | contradiction].
  - simpl. unfold insert_if_absent at 1.
    destruct (first_by_name (name x) rows) as [found|].
    + destruct (IH rows) as (added & Heq & Hlen & Hrows).
      exists added. split; [assumption|]. split; [simpl; lia|].
      intros r Hr. destruct (Hrows r Hr) as (e & He & Hdata).
      exists e. split; [now right | assumption].
    + match goal with
      | |- context [(rows ++ [?row])%list] => set (new_row := row)
      end.
      destruct (IH (rows ++ [new_row])%list) as (added & Heq & Hlen & Hrows).
      exists (new_row :: added). split; [|split].
      * rewrite Heq, <- app_assoc. reflexivity.
      * simpl. lia.
      * intros r [<- | Hr].
        -- exists x. split; [now left|]. repeat split.
        -- destruct (Hrows r Hr) as (e & He & Hdata).
           exists e. split; [now right | assumption].
Qed.



Lemma sample_names_distinct : NoDup (map name sample_equipment).
Proof.
  apply (NoDup_count_occ' string_dec). intros n Hin. simpl in Hin.
  destruct Hin as [<-|[<-|[<-|[<-|[]]]]]; reflexivity.
Qed.

Lemma same_name_same_equipment (equipments : list Equipment)
      (e e' : Equipment) :
  NoDup (map name equipments) ->
  In e equipments -> In e' equipments -> name e = name e' -> e = e'.
Proof.
  induction equipments as [|x rest IH]; intros Hnd He He' Hname;
    [contradiction|].
  simpl in Hnd. apply NoDup_cons_iff in Hnd as [Hx Hnd].
  destruct He as [-> | He], He' as [-> | He'].
  - reflexivity.
  - destruct Hx. rewrite Hname. now apply in_map.
  - destruct Hx. rewrite <- Hname. now apply in_map.
  - now apply IH.
Qed.

(** Insertion and lookup agree for every list of equipment with
    distinct names. *)
Lemma seed_rows_then_lookup (equipments rows : list Equipment)
      (e : Equipment) :
  NoDup (map name equipments) ->
  In e equipments ->
  first_by_name (name e) rows = None ->
  exists r,
    first_by_name (name e) (seed_rows equipments rows) = Some r /\
    name r = name e /\ category r = category e /\
    price r = price e /\ available r = available e.
Proof.
  intros Hnd He Hnone.
  pose proof (seed_rows_present equipments rows e He) as Hpresent.
  destruct (seed_rows_appends equipments rows) as (added & Heq & _ & Hadded).
  rewrite Heq in *. rewrite (first_by_name_added _ _ _ Hnone) in *.
  destruct (first_by_name (name e) added) as [r|] eqn:Hf; [|congruence].
  exists r. split; [reflexivity|].
  apply first_by_name_Some in Hf as [Hin Hname].
  destruct (Hadded r Hin) as (e' & He' & Hn & Hc & Hp & Ha).
  assert (e' = e).
  { apply (same_name_same_equipment equipments);
      [assumption | assumption | assumption | congruence]. }
  subst e'. auto.
Qed.

(** X12: insertion and lookup agree: after seeding, the lookup of a
    sample name that had no record returns a record that carries the
    category, the price and the availability of the sample. *)
Theorem add_sample_data_then_lookup (w : World) (e : Equipment) :
  In e sample_equipment ->
  first_by_name (name e) (table w) = None ->
  exists r,
    first_by_name (name e) (table (snd (add_sample_data w))) = Some r /\
    name r = name e /\ category r = category e /\
    price r = price e /\ available r = available e.
Proof.
  intros He Hnone. unfold add_sample_data. rewrite seed_run. cbn [snd table].
  apply seed_rows_then_lookup; [|assumption|assumption].
  apply sample_names_distinct.
Qed.

Lemma add_sample_data_then_lookup_witness :
  exists r,
    first_by_name "DJI Ronin-S" (table (snd (add_sample_data empty_world)))
      = Some r /\
    name r = "DJI Ronin-S" /\ category r = "Stabilizers" /\
    price r = PyFloat.of_Z 75 /\ available r = Some false.
Proof.
  refine (add_sample_data_then_lookup empty_world
            (mkEquipment None "DJI Ronin-S" "Stabilizers" (PyFloat.of_Z 75)
                         (Some false)) _ _).
  - simpl. tauto.
  - reflexivity.
Defined.

(** X13: seeding composed with the price handler: once the catalog is
    seeded, an inquiry for which the extractor returns a sample name that
    had no record before is answered with the price and the availability
    of the sample. *)
Theorem seeded_inquiry_is_answered
        (svc : Services) (email : string) (w : World) (e : Equipment) :
  In e sample_equipment ->
  first_by_name (name e) (table w) = None ->
  fst (extract_equipment_name svc email (snd (add_sample_data w)))
    = Ok (Some (name e)) ->
  fst (handle_price_availability_inquiry
         svc email (snd (add_sample_data w)))
  = Ok (price_msg svc e).
Proof.
  intros He Hnone Hex.
  destruct (seed_rows_then_lookup sample_equipment (table w) e
              sample_names_distinct He Hnone)
    as (r & Hfind & Hn & _ & Hp & Ha).
  rewrite (handle_price_availability_inquiry_run svc email _ _ Hex).
  unfold add_sample_data. rewrite seed_run.
  cbn [fst snd table price_reply]. rewrite Hfind.
  assert (Htruthy : truthy (name e) = true).
  { simpl in He. destruct He as [<-|[<-|[<-|[<-|[]]]]]; reflexivity. }
  rewrite Htruthy. unfold price_msg. now rewrite Hn, Hp, Ha.
Qed.

Lemma seeded_inquiry_is_answered_witness :
  fst (handle_price_availability_inquiry
         (scripted [Ok "DJI Ronin-S"] (Ok []))
         "Can I rent the DJI Ronin-S?" (snd (add_sample_data empty_world)))
  = Ok "The DJI Ronin-S is not available for rent at $75.0 per day.".
Proof.
  refine (seeded_inquiry_is_answered
            (scripted [Ok "DJI Ronin-S"] (Ok []))
            "Can I rent the DJI Ronin-S?" empty_world
            (mkEquipment None "DJI Ronin-S" "Stabilizers" (PyFloat.of_Z 75)
                         (Some false)) _ _ _).
  - simpl. tauto.
  - reflexivity.
  - reflexivity.
Defined.

(* ================================================================== *)
(** ** The entry point *)






(* ================================================================== *)
(** ** The negative-review branch, from the classifier's answer *)

(** X15: for an email that the classifier answers [negative_review], the
    router makes exactly one more call to the Completion Service, with
    the negative-review prompt built from the email; it returns the
    completion under the category [negative_review] when the call
    returns and the static apology under [error] when it raises; it
    neither queries the catalog nor asks the retriever. *)
Theorem negative_review_branch_is_isolated
        (svc : Services) (email : string) (w : World) :
  fst (classify_email svc email w) = Ok "negative_review" ->
  let w1 := snd (classify_email svc email w) in
  fst (handle_email svc email w) =
    match complete svc (chat_calls w1) (negative_prompt email) with
    | Ok content => Ok ("negative_review", content)
    | Raise _ => Ok ("error", error_msg)
    end /\
  effect w1 (snd (handle_email svc email w)) [negative_prompt email] [] [].
Proof.
  rewrite classify_email_run. cbn [fst snd]. intros Hneg.
  injection Hneg as Hneg.
  rewrite (handle_email_negative_review svc email w Hneg). cbn [fst snd].
  split; [reflexivity|]. unfold effect. simpl. now rewrite !app_nil_r.
Qed.

Lemma negative_review_branch_is_isolated_witness :
  fst (handle_email svc_negative email_negative empty_world)
    = Ok ("negative_review", reply_with_blanks) /\
  db_queries (snd (handle_email svc_negative email_negative empty_world))
    = [] /\
  retrievals (snd (handle_email svc_negative email_negative empty_world))
    = [].
Proof.
  destruct (negative_review_branch_is_isolated
              svc_negative email_negative empty_world eq_refl)
    as (Hrun & _ & _ & Hq & Hr).
  split; [exact Hrun|]. split; [exact Hq | exact Hr].
Defined.
